(** * Compact-block-filter synchronisation of the coinswap wallet

    Shallow embedding of [src/wallet/cbf.rs]: the [CbfBlockchain] state,
    its constructor [new], the event loop [process_events], the relevance
    matcher and the wallet reconciler.  Rust's [Result] and the [?]
    operator are modelled by an error-and-state monad; a panic (out of
    range indexing) is a separate outcome.  Heights and indices are
    unsigned integers, modelled as [N]. *)

From Stdlib Require Import List Strings.Byte NArith Lia.
From stdpp Require Import base gmap.
Import ListNotations.
Open Scope N_scope.

(* ------------------------------------------------------------------ *)
(** ** Bitcoin data (crate [bitcoin] / [nakamoto]) *)

Definition Script := list byte.
Definition Txid := N.
Definition Amount := N.      (* u64 satoshis *)
Definition Height := N.
Definition SocketAddr := N.
Definition BlockHash := N.

#[global] Instance byte_eq_dec : EqDecision byte := Byte.byte_eq_dec.

Record OutPoint := mkOutPoint { op_txid : Txid; vout : N }.

#[global] Instance OutPoint_eq_dec : EqDecision OutPoint.
Proof. intros [a b] [c d]; unfold Decision; decide equality; apply N.eq_dec. Defined.

Record TxIn := mkTxIn { previous_output : OutPoint }.
Record TxOut := mkTxOut { value : Amount; script_pubkey : Script }.
Record Transaction := mkTransaction {
  tx_version : N;
  input : list TxIn;
  output : list TxOut;
  lock_time : N }.

(** [p2p::fsm::fees::FeeEstimate]. *)
Record FeeEstimate := mkFeeEstimate { fee_low : N; fee_median : N; fee_high : N }.

(** The events of [nakamoto::client::Event]; payloads that the loop only
    logs are kept as plain numbers. *)
Inductive Event :=
| Ready (tip filter_tip : Height)
| PeerConnected (addr : SocketAddr) (link : N)
| PeerDisconnected (addr : SocketAddr) (reason : N)
| PeerConnectionFailed (addr : SocketAddr) (error : N)
| PeerNegotiated (addr : SocketAddr) (link services : N) (height : Height)
    (user_agent version : N)
| PeerHeightUpdated (height : Height)
| BlockConnected (hash : BlockHash) (height : Height)
| BlockDisconnected (hash : BlockHash) (height : Height)
| BlockMatched (hash : BlockHash) (header : N) (height : Height)
    (transactions : list Transaction)
| FeeEstimated (block : BlockHash) (height : Height) (fees : FeeEstimate)
| FilterProcessed (block : BlockHash) (height : Height) (matched valid : bool)
| TxStatusChanged (txid : Txid) (status : N)
| Synced (height tip : Height).

(* ------------------------------------------------------------------ *)
(** ** Errors and the execution monad *)

Inductive Result (T E : Type) := Ok (t : T) | Err (e : E).
Arguments Ok {T E} t.
Arguments Err {T E} e.

(** [nakamoto::client::Error]. *)
Inductive NakamotoError :=
| ChannelClosed                 (* the event receiver was disconnected *)
| ClientInit                    (* [Client::new] failed *)
| HandleError (code : N).        (* a command on the handle failed *)

(** [crate::wallet::error::WalletError]: a storage failure. *)
Inductive WalletError := StorageFailure.

Inductive CbfSyncError :=
| NakamotoErr (e : NakamotoError)
| WalletErr (e : WalletError).

(** What a Rust call can end in: a returned [Result], or a panic. *)
Inductive outcome (A : Type) :=
| Done (r : Result A CbfSyncError)
| Panic.
Arguments Done {A} r.
Arguments Panic {A}.

Definition M (S A : Type) := S -> outcome A * S.

Definition retM {S A} (a : A) : M S A := fun s => (Done (Ok a), s).

Definition bindM {S A B} (m : M S A) (k : A -> M S B) : M S B :=
  fun s =>
    match m s with
    | (Done (Ok a), s') => k a s'
    | (Done (Err e), s') => (Done (Err e), s')
    | (Panic, s') => (Panic, s')
    end.

Declare Scope cbf_scope.
Notation "x <- m ;; k" := (bindM m (fun x => k))
  (at level 100, m at next level, right associativity) : cbf_scope.
Notation "m ;; k" := (bindM m (fun _ => k))
  (at level 100, right associativity) : cbf_scope.
Open Scope cbf_scope.

(* ------------------------------------------------------------------ *)
(** ** The wallet store collaborator *)

(** The methods [is_script_tracked], [is_utxo_tracked], [add_utxo],
    [remove_utxo] and [store_transaction] that [cbf.rs] calls on
    [Wallet]; the repository has not written them yet (see the comment at
    the end of [update_wallet_with_tx]), so the engine is stated over any
    implementation of this interface.  Reads do not change the store;
    writes return the new store or an error. *)
Class WalletStore (W : Type) := {
  is_script_tracked : W -> Script -> Result bool WalletError;
  is_utxo_tracked : W -> OutPoint -> Result bool WalletError;
  add_utxo : W -> OutPoint -> Amount -> Script -> Result W WalletError;
  remove_utxo : W -> OutPoint -> Result W WalletError;
  store_transaction : W -> Transaction -> Result W WalletError }.

(* ------------------------------------------------------------------ *)
(** ** [CbfBlockchain] *)

(** The fields of [CbfBlockchain] other than the channel [receiver], the
    [client_handle] and the [timeout]: the event channel is the event
    list given to [process_events]. *)
Record CbfBlockchain (W : Type) := mkCbf {
  fee_data : gmap N FeeEstimate;
  broadcasted_txs : list Transaction;
  last_sync_height : N;
  wallet : W }.
Arguments mkCbf {W}.
Arguments fee_data {W}.
Arguments broadcasted_txs {W}.
Arguments last_sync_height {W}.
Arguments wallet {W}.

(** Rust's [n as u32] on a [usize]: truncation to 32 bits. *)
Definition as_u32 (n : nat) : N := N.of_nat n mod 2 ^ 32.

Section Engine.

Context {W : Type} `{!WalletStore W}.

(** The transaction identifier (double SHA-256 of the serialisation, in
    the [bitcoin] crate); the engine is stated for any such function. *)
Context (txid : Transaction -> Txid).

Local Abbreviation Cbf := (CbfBlockchain W).

Definition set_wallet (s : Cbf) (w : W) : Cbf :=
  mkCbf (fee_data s) (broadcasted_txs s) (last_sync_height s) w.

(** A read on [self.wallet] followed by [?]. *)
Definition wallet_read {A} (f : W -> Result A WalletError) : M Cbf A :=
  fun s =>
    match f (wallet s) with
    | Ok a => (Done (Ok a), s)
    | Err e => (Done (Err (WalletErr e)), s)
    end.

(** A mutating call on [self.wallet] followed by [?]. *)
Definition wallet_write (f : W -> Result W WalletError) : M Cbf unit :=
  fun s =>
    match f (wallet s) with
    | Ok w => (Done (Ok tt), set_wallet s w)
    | Err e => (Done (Err (WalletErr e)), s)
    end.

(** [CbfBlockchain::new]: [Client::new()?], spawn the client thread (its
    outcome is not observed by [new]), then [connect(peer)?] for each
    peer in order.  [client_new] and [connect] are the results the
    nakamoto client returns. *)
Fixpoint connect_peers (connect : SocketAddr -> Result unit NakamotoError)
    (peers : list SocketAddr) : Result unit CbfSyncError :=
  match peers with
  | [] => Ok tt
  | peer :: rest =>
      match connect peer with
      | Ok _ => connect_peers connect rest
      | Err e => Err (NakamotoErr e)
      end
  end.

Definition new (client_new : Result unit NakamotoError)
    (connect : SocketAddr -> Result unit NakamotoError)
    (peers : list SocketAddr) (w : W) : Result Cbf CbfSyncError :=
  match client_new with
  | Err e => Err (NakamotoErr e)
  | Ok _ =>
      match connect_peers connect peers with
      | Err e => Err e
      | Ok _ => Ok (mkCbf ∅ [] 0 w)
      end
  end.

(** [add_fee_data]: take the map out of the cell, insert, put it back. *)
Definition add_fee_data (s : Cbf) (height : N) (fee_estimate : FeeEstimate) : Cbf :=
  mkCbf (<[height := fee_estimate]> (fee_data s)) (broadcasted_txs s)
    (last_sync_height s) (wallet s).

(** [find_relevant_outputs]: the [for (idx, script) in ...enumerate()]
    loop, pushing [(idx as u32, script)] when the script is tracked. *)
Fixpoint find_relevant_outputs_loop (idx : nat) (relevant_outputs : list (N * Script))
    (output_scripts : list Script) : M Cbf (list (N * Script)) :=
  match output_scripts with
  | [] => retM relevant_outputs
  | script :: rest =>
      tracked <- wallet_read (fun w => is_script_tracked w script) ;;
      find_relevant_outputs_loop (S idx)
        (if tracked then relevant_outputs ++ [(as_u32 idx, script)]
         else relevant_outputs) rest
  end.

Definition find_relevant_outputs (output_scripts : list Script) : M Cbf (list (N * Script)) :=
  find_relevant_outputs_loop 0 [] output_scripts.

(** Modelled from the spec: [find_relevant_inputs], called by
    [process_transaction] but not defined in [cbf.rs].  Section 4.3: an
    input is relevant iff its outpoint currently exists as a tracked
    UTXO ([is_utxo_tracked], named in the comment of
    [update_wallet_with_tx]); order is preserved; a failing read is a
    wallet error. *)
Fixpoint find_relevant_inputs_loop (relevant_inputs : list OutPoint)
    (input_outpoints : list OutPoint) : M Cbf (list OutPoint) :=
  match input_outpoints with
  | [] => retM relevant_inputs
  | outpoint :: rest =>
      tracked <- wallet_read (fun w => is_utxo_tracked w outpoint) ;;
      find_relevant_inputs_loop
        (if tracked then relevant_inputs ++ [outpoint] else relevant_inputs) rest
  end.

Definition find_relevant_inputs (input_outpoints : list OutPoint) : M Cbf (list OutPoint) :=
  find_relevant_inputs_loop [] input_outpoints.

(** [transaction.output[i].value]: panics out of range. *)
Definition output_value (transaction : Transaction) (i : N) : M Cbf Amount :=
  fun s =>
    match nth_error (output transaction) (N.to_nat i) with
    | Some out => (Done (Ok (value out)), s)
    | None => (Panic, s)
    end.

Fixpoint add_outputs (transaction : Transaction) (tid : Txid)
    (relevant_outputs : list (N * Script)) : M Cbf unit :=
  match relevant_outputs with
  | [] => retM tt
  | (v, script) :: rest =>
      amount <- output_value transaction v ;;
      wallet_write (fun w => add_utxo w (mkOutPoint tid v) amount script) ;;
      add_outputs transaction tid rest
  end.

Fixpoint remove_inputs (relevant_inputs : list OutPoint) : M Cbf unit :=
  match relevant_inputs with
  | [] => retM tt
  | outpoint :: rest =>
      wallet_write (fun w => remove_utxo w outpoint) ;;
      remove_inputs rest
  end.

Definition update_wallet_with_tx (transaction : Transaction)
    (relevant_outputs : list (N * Script)) (relevant_inputs : list OutPoint) : M Cbf unit :=
  let tid := txid transaction in
  add_outputs transaction tid relevant_outputs ;;
  remove_inputs relevant_inputs ;;
  wallet_write (fun w => store_transaction w transaction) ;;
  retM tt.

Definition process_transaction (transaction : Transaction) : M Cbf unit :=
  let output_scripts := map script_pubkey (output transaction) in
  let input_outpoints := map previous_output (input transaction) in
  relevant_outputs <- find_relevant_outputs output_scripts ;;
  relevant_inputs <- find_relevant_inputs input_outpoints ;;
  if negb (bool_decide (relevant_inputs = [])) || negb (bool_decide (relevant_outputs = []))
  then update_wallet_with_tx transaction relevant_outputs relevant_inputs
  else retM tt.

Fixpoint process_transactions (transactions : list Transaction) : M Cbf unit :=
  match transactions with
  | [] => retM tt
  | transaction :: rest => process_transaction transaction ;; process_transactions rest
  end.

(** [process_events]: the loop pulls events from the receiver (here the
    list of events still in the channel); when the channel is empty,
    [get_next_event] fails and [?] returns the error. *)
Fixpoint process_events (events : list Event) : M Cbf unit :=
  match events with
  | [] => fun s => (Done (Err (NakamotoErr ChannelClosed)), s)
  | event :: rest =>
      match event with
      | BlockMatched _ _ _ transactions =>
          process_transactions transactions ;; process_events rest
      | Synced height tip =>
          if N.eqb height tip then retM tt else process_events rest
      | _ => process_events rest
      end
  end.

(** [initialize_cbf_sync]: [get_tip()] on the handle, [?] on the
    command's result, then [?] on the tip query's own result, as the
    source writes it (a nested [Result]); on success the cursor is set to
    the tip height. *)
Definition initialize_cbf_sync
    (get_tip : Result (Result (Height * N) NakamotoError) NakamotoError) : M Cbf unit :=
  fun s =>
    match get_tip with
    | Err e => (Done (Err (NakamotoErr e)), s)
    | Ok (Err e) => (Done (Err (NakamotoErr e)), s)
    | Ok (Ok (height, _)) =>
        (Done (Ok tt), mkCbf (fee_data s) (broadcasted_txs s) height (wallet s))
    end.

End Engine.

(* ------------------------------------------------------------------ *)
(** ** Wallet-store calls, as a sequence *)

(** The calls [update_wallet_with_tx] makes on the store, and the
    sequence the reconciler is described to make: one [add_utxo] per
    relevant output (amount read from that output), one [remove_utxo] per
    relevant input, one [store_transaction]. *)
Inductive StoreCall :=
| CallAddUtxo (outpoint : OutPoint) (amount : Amount) (script : Script)
| CallRemoveUtxo (outpoint : OutPoint)
| CallStoreTransaction (transaction : Transaction).

Definition run_call {W} `{!WalletStore W} (c : StoreCall) (w : W) : Result W WalletError :=
  match c with
  | CallAddUtxo o a sc => add_utxo w o a sc
  | CallRemoveUtxo o => remove_utxo w o
  | CallStoreTransaction tx => store_transaction w tx
  end.

(** Runs calls in order; stops at the first failing one, keeping the
    store the earlier calls produced. *)
Fixpoint exec_calls {W} `{!WalletStore W} (cs : list StoreCall) (w : W)
    : Result unit WalletError * W :=
  match cs with
  | [] => (Ok tt, w)
  | c :: rest =>
      match run_call c w with
      | Ok w' => exec_calls rest w'
      | Err e => (Err e, w)
      end
  end.

Definition amount_at (transaction : Transaction) (v : N) : Amount :=
  match nth_error (output transaction) (N.to_nat v) with
  | Some out => value out
  | None => 0
  end.

Definition expected_calls (txid : Transaction -> Txid) (transaction : Transaction)
    (relevant_outputs : list (N * Script)) (relevant_inputs : list OutPoint)
    : list StoreCall :=
  map (fun '(v, sc) => CallAddUtxo (mkOutPoint (txid transaction) v)
                         (amount_at transaction v) sc) relevant_outputs
  ++ map CallRemoveUtxo relevant_inputs
  ++ [CallStoreTransaction transaction].

(* ------------------------------------------------------------------ *)
(** ** An in-memory wallet store *)

(** Modelled from the spec: a Wallet Store (section 6) for concrete runs.
    Scripts are tracked by membership; adding a present UTXO and removing
    an absent one are no-ops (section 7); every write consumes one unit
    of [mw_capacity] and fails with a storage error when none is left. *)
Record MemWallet := mkMemWallet {
  mw_scripts : list Script;
  mw_utxos : list (OutPoint * Amount * Script);
  mw_txs : list Transaction;
  mw_capacity : nat }.

Definition utxo_present (w : MemWallet) (o : OutPoint) : bool :=
  existsb (fun '(o', _, _) => bool_decide (o' = o)) (mw_utxos w).

Definition mw_write (w : MemWallet) (f : MemWallet -> MemWallet) : Result MemWallet WalletError :=
  match mw_capacity w with
  | O => Err StorageFailure
  | S c => Ok (f (mkMemWallet (mw_scripts w) (mw_utxos w) (mw_txs w) c))
  end.

#[global] Instance MemWallet_store : WalletStore MemWallet := {
  is_script_tracked w sc := Ok (bool_decide (sc ∈ mw_scripts w));
  is_utxo_tracked w o := Ok (utxo_present w o);
  add_utxo w o a sc := mw_write w (fun w' =>
    if utxo_present w' o then w'
    else mkMemWallet (mw_scripts w') (mw_utxos w' ++ [(o, a, sc)]) (mw_txs w') (mw_capacity w'));
  remove_utxo w o := mw_write w (fun w' =>
    mkMemWallet (mw_scripts w')
      (List.filter (fun '(o', _, _) => negb (bool_decide (o' = o))) (mw_utxos w'))
      (mw_txs w') (mw_capacity w'));
  store_transaction w tx := mw_write w (fun w' =>
    mkMemWallet (mw_scripts w') (mw_utxos w') (mw_txs w' ++ [tx]) (mw_capacity w')) }.

(** A stand-in transaction identifier for concrete runs. *)
Definition demo_txid (tx : Transaction) : Txid := tx_version tx.

Definition script_S : Script := [x00; x14; xab].
Definition script_X : Script := [x00; x14; xcd].

(** Scenario A's transaction: [T1] pays 50000 to [S] at output 0. *)
Definition T1 : Transaction :=
  mkTransaction 1 [mkTxIn (mkOutPoint 99 0)] [mkTxOut 50000 script_S] 0.
(** Scenario B's transaction: [T2] spends [T1:0] and pays an untracked script. *)
Definition T2 : Transaction :=
  mkTransaction 2 [mkTxIn (mkOutPoint 1 0)] [mkTxOut 49000 script_X] 0.

Definition fee_ex : FeeEstimate := mkFeeEstimate 1 2 3.

Definition wallet0 (cap : nat) : MemWallet := mkMemWallet [script_S] [] [] cap.

Definition cbf0 (cursor : N) (cap : nat) : CbfBlockchain MemWallet :=
  mkCbf ∅ [] cursor (wallet0 cap).

(* ------------------------------------------------------------------ *)
(** ** Vocabulary of the statements *)

(** The answer of the tracked-script test, a failed test read as [false]. *)
Definition script_is_tracked {W} `{!WalletStore W} (w : W) (sc : Script) : bool :=
  match is_script_tracked w sc with Ok b => b | Err _ => false end.

Definition utxo_is_tracked {W} `{!WalletStore W} (w : W) (o : OutPoint) : bool :=
  match is_utxo_tracked w o with Ok b => b | Err _ => false end.

(** The outputs [find_relevant_outputs] is meant to return from index
    [idx] on, indices cast to u32. *)
Definition relevant_outputs_of {W} `{!WalletStore W} (w : W) (idx : nat)
    (scripts : list Script) : list (N * Script) :=
  map (fun '(i, sc) => (as_u32 i, sc))
    (List.filter (fun '(_, sc) => script_is_tracked w sc)
       (combine (seq idx (length scripts)) scripts)).

(** Every relevant output index names an output of the transaction. *)
Definition outputs_in_range (transaction : Transaction)
    (relevant_outputs : list (N * Script)) : Prop :=
  Forall (fun '(v, _) => (N.to_nat v < length (output transaction))%nat) relevant_outputs.

(** A store result seen through [?] in a function returning [CbfSyncError]. *)
Definition lift_wallet_result (r : Result unit WalletError) : Result unit CbfSyncError :=
  match r with Ok u => Ok u | Err e => Err (WalletErr e) end.

Definition is_block_disconnected (e : Event) : bool :=
  match e with BlockDisconnected _ _ => true | _ => false end.

(** Running a sequence of store calls on the wallet inside the engine. *)
Definition exec_calls_in {W} `{!WalletStore W} (cs : list StoreCall)
    : M (CbfBlockchain W) unit :=
  fun s => let r := exec_calls cs (wallet s) in
           (Done (lift_wallet_result (fst r)), set_wallet s (snd r)).

(** [Synced(height, tip)] with [height = tip]: the event that ends
    [process_events]. *)
Definition is_final_synced (e : Event) : bool :=
  match e with Synced h t => N.eqb h t | _ => false end.

(** The events [process_events] acts on: block matches and the final
    [Synced]; every other event is only logged. *)
Definition is_acted_on (e : Event) : bool :=
  match e with BlockMatched _ _ _ _ => true | _ => is_final_synced e end.

Definition is_panic {A} (o : outcome A) : bool :=
  match o with Panic => true | Done _ => false end.

(** A store whose backing storage is unavailable: every call fails. *)
Inductive OfflineWallet := offline.

#[global] Instance OfflineWallet_store : WalletStore OfflineWallet := {
  is_script_tracked _ _ := Err StorageFailure;
  is_utxo_tracked _ _ := Err StorageFailure;
  add_utxo _ _ _ _ := Err StorageFailure;
  remove_utxo _ _ := Err StorageFailure;
  store_transaction _ _ := Err StorageFailure }.

(** A computation that changes nothing but the wallet. *)
Definition wallet_only {W A} (m : M (CbfBlockchain W) A) : Prop :=
  forall s, exists w, snd (m s) = set_wallet s w.

(* ------------------------------------------------------------------ *)
(** * Properties *)

Example scenario_A :
  process_events demo_txid [BlockMatched 7 0 10 [T1]; Synced 10 10] (cbf0 10 10)
  = (Done (Ok tt), mkCbf ∅ [] 10
       (mkMemWallet [script_S] [(mkOutPoint 1 0, 50000, script_S)] [T1] 8)).
Proof. vm_compute. reflexivity. Qed.

(** ** The engine changes only the wallet *)

Section Frame.

Context {W : Type} `{!WalletStore W} (txid : Transaction -> Txid).

Lemma set_wallet_twice (s : CbfBlockchain W) w1 w2 :
  set_wallet (set_wallet s w1) w2 = set_wallet s w2.
Proof. destruct s; reflexivity. Qed.

Lemma set_wallet_same (s : CbfBlockchain W) : set_wallet s (wallet s) = s.
Proof. destruct s; reflexivity. Qed.

Lemma wallet_only_ret {A} (a : A) : wallet_only (W := W) (retM a).
Proof. intros s; exists (wallet s); apply eq_sym, set_wallet_same. Qed.

Lemma wallet_only_bind {A B} (m : M (CbfBlockchain W) A) (k : A -> M _ B) :
  wallet_only m -> (forall a, wallet_only (k a)) -> wallet_only (bindM m k).
Proof.
  intros Hm Hk s; unfold bindM.
  destruct (Hm s) as [w1 Hw1].
  destruct (m s) as [[[a|e]|] s'] eqn:E; simpl in Hw1; subst s'.
  - destruct (Hk a (set_wallet s w1)) as [w2 Hw2].
    exists w2; rewrite Hw2; apply set_wallet_twice.
  - now exists w1.
  - now exists w1.
Qed.

Lemma wallet_only_read {A} (f : W -> Result A WalletError) : wallet_only (wallet_read f).
Proof.
  intros s; exists (wallet s); unfold wallet_read.
  destruct (f (wallet s)); simpl; apply eq_sym, set_wallet_same.
Qed.

Lemma wallet_only_write (f : W -> Result W WalletError) : wallet_only (wallet_write f).
Proof.
  intros s; unfold wallet_write.
  destruct (f (wallet s)) as [w|e]; simpl.
  - now exists w.
  - exists (wallet s); apply eq_sym, set_wallet_same.
Qed.

Lemma wallet_only_output_value tx i : wallet_only (W := W) (output_value tx i).
Proof.
  intros s; exists (wallet s); unfold output_value.
  destruct (nth_error _ _); simpl; apply eq_sym, set_wallet_same.
Qed.

Create HintDb frame.
Local Hint Resolve wallet_only_ret wallet_only_bind wallet_only_read
  wallet_only_write wallet_only_output_value : frame.

Lemma wallet_only_process_transaction tx :
  wallet_only (process_transaction (W := W) txid tx).
Proof.
  unfold process_transaction, find_relevant_outputs, find_relevant_inputs.
  apply wallet_only_bind.
  { generalize 0%nat, (@nil (N * Script)).
    induction (map script_pubkey (output tx)); simpl; eauto with frame. }
  intros ro; apply wallet_only_bind.
  { generalize (@nil OutPoint).
    induction (map previous_output (input tx)); simpl; eauto with frame. }
  intros ri; destruct (_ || _); [|auto with frame].
  unfold update_wallet_with_tx.
  apply wallet_only_bind.
  { generalize (txid tx); intros tid.
    induction ro as [|[v sc] ro IH]; simpl; eauto 6 with frame. }
  intros _; apply wallet_only_bind.
  { induction ri; simpl; eauto with frame. }
  eauto with frame.
Qed.

Lemma wallet_only_process_events events :
  wallet_only (process_events (W := W) txid events).
Proof.
  induction events as [|e events IH].
  - intros s; exists (wallet s); apply eq_sym, set_wallet_same.
  - destruct e; simpl; auto.
    + apply wallet_only_bind; auto.
      induction transactions; simpl; auto with frame.
      apply wallet_only_bind; auto using wallet_only_process_transaction.
    + destruct (N.eqb _ _); auto with frame.
Qed.

Lemma process_events_cursor events (s : CbfBlockchain W) :
  last_sync_height (snd (process_events txid events s)) = last_sync_height s.
Proof.
  destruct (wallet_only_process_events events s) as [w ->]; destruct s; reflexivity.
Qed.

Lemma process_events_fee_data events (s : CbfBlockchain W) :
  fee_data (snd (process_events txid events s)) = fee_data s.
Proof.
  destruct (wallet_only_process_events events s) as [w ->]; destruct s; reflexivity.
Qed.

End Frame.

(** ** The relevance matcher *)

Section Matcher.

Context {W : Type} `{!WalletStore W}.

Lemma relevant_outputs_of_cons (w : W) idx sc scripts :
  relevant_outputs_of w idx (sc :: scripts) =
  (if script_is_tracked w sc then [(as_u32 idx, sc)] else [])
  ++ relevant_outputs_of w (S idx) scripts.
Proof. unfold relevant_outputs_of; simpl; destruct (script_is_tracked w sc); reflexivity. Qed.

Lemma find_outputs_loop_ok scripts idx acc (s : CbfBlockchain W) ro :
  fst (find_relevant_outputs_loop idx acc scripts s) = Done (Ok ro) <->
  Forall (fun sc => exists b, is_script_tracked (wallet s) sc = Ok b) scripts /\
  ro = acc ++ relevant_outputs_of (wallet s) idx scripts.
Proof.
  revert idx acc; induction scripts as [|sc scripts IH]; intros idx acc; simpl.
  - unfold relevant_outputs_of; simpl; rewrite app_nil_r.
    split; [intros H; inversion H; auto | intros [_ ->]; reflexivity].
  - unfold bindM, wallet_read.
    destruct (is_script_tracked _ _) as [b|e] eqn:E; simpl.
    + rewrite IH, relevant_outputs_of_cons.
      replace (script_is_tracked (wallet s) sc) with b
        by (unfold script_is_tracked; rewrite E; reflexivity).
      split.
      * intros [HF ->]; split; [constructor; eauto|].
        destruct b; simpl; rewrite <-?app_assoc; reflexivity.
      * intros [HF ->]; inversion HF; subst; split; auto.
        destruct b; simpl; rewrite <-?app_assoc; reflexivity.
    + split; [discriminate|].
      intros [HF _]; inversion HF as [|? ? [b Hb]]; congruence.
Qed.

Lemma find_outputs_loop_state scripts idx acc (s : CbfBlockchain W) :
  snd (find_relevant_outputs_loop idx acc scripts s) = s.
Proof.
  revert idx acc; induction scripts as [|sc scripts IH]; intros idx acc; simpl; auto.
  unfold bindM, wallet_read; destruct (is_script_tracked _ _); simpl; auto.
Qed.

Lemma find_inputs_loop_ok outpoints acc (s : CbfBlockchain W) ri :
  fst (find_relevant_inputs_loop acc outpoints s) = Done (Ok ri) <->
  Forall (fun o => exists b, is_utxo_tracked (wallet s) o = Ok b) outpoints /\
  ri = acc ++ List.filter (utxo_is_tracked (wallet s)) outpoints.
Proof.
  revert acc; induction outpoints as [|o outpoints IH]; intros acc; simpl.
  - rewrite app_nil_r.
    split; [intros H; inversion H; auto | intros [_ ->]; reflexivity].
  - unfold bindM, wallet_read.
    destruct (is_utxo_tracked _ _) as [b|e] eqn:E; simpl.
    + rewrite IH; simpl.
      replace (utxo_is_tracked (wallet s) o) with b
        by (unfold utxo_is_tracked; rewrite E; reflexivity).
      split.
      * intros [HF ->]; split; [constructor; eauto|].
        destruct b; simpl; rewrite <-?app_assoc; reflexivity.
      * intros [HF ->]; inversion HF; subst; split; auto.
        destruct b; simpl; rewrite <-?app_assoc; reflexivity.
    + split; [discriminate|].
      intros [HF _]; inversion HF as [|? ? [b Hb]]; congruence.
Qed.

Lemma find_inputs_loop_state outpoints acc (s : CbfBlockchain W) :
  snd (find_relevant_inputs_loop acc outpoints s) = s.
Proof.
  revert acc; induction outpoints as [|o outpoints IH]; intros acc; simpl; auto.
  unfold bindM, wallet_read; destruct (is_utxo_tracked _ _); simpl; auto.
Qed.

(** Below [2^32] outputs, [idx as u32] is the index itself. *)
Lemma relevant_outputs_of_index (w : W) (outs : list TxOut) :
  N.of_nat (length outs) < 2 ^ 32 ->
  relevant_outputs_of w 0 (map script_pubkey outs) =
  map (fun '(i, o) => (N.of_nat i, script_pubkey o))
    (List.filter (fun '(_, o) => script_is_tracked w (script_pubkey o))
       (combine (seq 0 (length outs)) outs)).
Proof.
  intros Hlen; unfold relevant_outputs_of; rewrite length_map.
  assert (Hin : forall i, In i (seq 0 (length outs)) -> as_u32 i = N.of_nat i).
  { intros i Hi; apply in_seq in Hi; unfold as_u32.
    apply N.mod_small; lia. }
  revert Hin; generalize (seq 0 (length outs)) as ix; clear Hlen.
  induction outs as [|o outs IH]; intros [|i ix] Hin; simpl; auto.
  destruct (script_is_tracked w (script_pubkey o)); simpl.
  - rewrite Hin by (left; reflexivity); f_equal; apply IH; intros; apply Hin; right; auto.
  - apply IH; intros; apply Hin; right; auto.
Qed.

End Matcher.

(** ** The reconciler as a sequence of store calls *)

Section Reconciler.

Context {W : Type} `{!WalletStore W} (txid : Transaction -> Txid).

Lemma bindM_ext {A B} (m1 m2 : M (CbfBlockchain W) A) (k1 k2 : A -> M _ B) s :
  (forall s, m1 s = m2 s) -> (forall a s, k1 a s = k2 a s) ->
  bindM m1 k1 s = bindM m2 k2 s.
Proof.
  intros Hm Hk; unfold bindM; rewrite Hm.
  destruct (m2 s) as [[[a|e]|] s']; auto.
Qed.

Lemma bindM_ret_unit (m : M (CbfBlockchain W) unit) s :
  bindM m (fun _ => retM tt) s = m s.
Proof. unfold bindM, retM; destruct (m s) as [[[[]|e]|] s']; reflexivity. Qed.

Lemma exec_calls_app cs1 cs2 (w : W) :
  exec_calls (cs1 ++ cs2) w =
  match exec_calls cs1 w with
  | (Ok _, w') => exec_calls cs2 w'
  | (Err e, w') => (Err e, w')
  end.
Proof.
  revert w; induction cs1 as [|c cs1 IH]; intros w; simpl; auto.
  destruct (run_call c w); auto.
Qed.

Lemma exec_calls_in_app cs1 cs2 (s : CbfBlockchain W) :
  bindM (exec_calls_in cs1) (fun _ => exec_calls_in cs2) s = exec_calls_in (cs1 ++ cs2) s.
Proof.
  unfold bindM, exec_calls_in at 1 3; rewrite exec_calls_app.
  destruct (exec_calls cs1 (wallet s)) as [[[]|e] w']; simpl.
  - unfold exec_calls_in; simpl; rewrite set_wallet_twice; reflexivity.
  - reflexivity.
Qed.

Lemma exec_calls_in_one c (s : CbfBlockchain W) :
  exec_calls_in [c] s = wallet_write (run_call c) s.
Proof.
  unfold exec_calls_in, wallet_write; simpl.
  destruct (run_call c (wallet s)); simpl; [reflexivity|].
  rewrite set_wallet_same; reflexivity.
Qed.

Lemma exec_calls_in_nil (s : CbfBlockchain W) : exec_calls_in [] s = retM tt s.
Proof. unfold exec_calls_in; simpl; rewrite set_wallet_same; reflexivity. Qed.

Lemma add_outputs_calls tx tid ro (s : CbfBlockchain W) :
  outputs_in_range tx ro ->
  add_outputs tx tid ro s =
  exec_calls_in (map (fun '(v, sc) => CallAddUtxo (mkOutPoint tid v) (amount_at tx v) sc) ro) s.
Proof.
  intros Hr; revert s; induction Hr as [|[v sc] ro Hv Hr IH]; intros s; simpl.
  - symmetry; apply exec_calls_in_nil.
  - apply nth_error_Some in Hv.
    destruct (nth_error (output tx) (N.to_nat v)) as [o|] eqn:Eo; [|congruence].
    unfold bindM at 1, output_value; rewrite Eo.
    change (CallAddUtxo (mkOutPoint tid v) (amount_at tx v) sc
            :: map (fun '(v, sc) => CallAddUtxo (mkOutPoint tid v) (amount_at tx v) sc) ro)
      with ([CallAddUtxo (mkOutPoint tid v) (amount_at tx v) sc]
            ++ map (fun '(v, sc) => CallAddUtxo (mkOutPoint tid v) (amount_at tx v) sc) ro).
    rewrite <- exec_calls_in_app.
    apply bindM_ext; auto.
    intros s'; rewrite exec_calls_in_one; unfold amount_at; rewrite Eo; reflexivity.
Qed.

Lemma remove_inputs_calls ri (s : CbfBlockchain W) :
  remove_inputs ri s = exec_calls_in (map CallRemoveUtxo ri) s.
Proof.
  revert s; induction ri as [|o ri IH]; intros s; simpl.
  - symmetry; apply exec_calls_in_nil.
  - change (CallRemoveUtxo o :: map CallRemoveUtxo ri)
      with ([CallRemoveUtxo o] ++ map CallRemoveUtxo ri).
    rewrite <- exec_calls_in_app.
    apply bindM_ext; auto.
    intros s'; rewrite exec_calls_in_one; reflexivity.
Qed.

Lemma update_wallet_with_tx_calls tx ro ri (s : CbfBlockchain W) :
  outputs_in_range tx ro ->
  update_wallet_with_tx txid tx ro ri s = exec_calls_in (expected_calls txid tx ro ri) s.
Proof.
  intros Hr; unfold update_wallet_with_tx, expected_calls.
  rewrite <- exec_calls_in_app.
  apply bindM_ext; [intros; apply add_outputs_calls; auto|].
  intros _ s1; rewrite <- exec_calls_in_app.
  apply bindM_ext; [apply remove_inputs_calls|].
  intros _ s2; rewrite bindM_ret_unit, exec_calls_in_one; reflexivity.
Qed.

Lemma exec_calls_err cs (w w' : W) e :
  exec_calls cs w = (Err e, w') ->
  exists k c, nth_error cs k = Some c /\
    exec_calls (firstn k cs) w = (Ok tt, w') /\ run_call c w' = Err e.
Proof.
  revert w; induction cs as [|c cs IH]; intros w H; simpl in H; [discriminate|].
  destruct (run_call c w) as [w1|e1] eqn:E.
  - destruct (IH w1 H) as (k & c' & Hk & Hpre & Hc).
    exists (S k), c'; simpl; rewrite E; auto.
  - inversion H; subst; exists 0%nat, c; simpl; repeat split.
    rewrite E; destruct e, e1; reflexivity.
Qed.

End Reconciler.

(** ** The claims *)

Lemma outputs_in_range_found {W} `{!WalletStore W} (tx : Transaction) (s : CbfBlockchain W) ro :
  N.of_nat (length (output tx)) < 2 ^ 32 ->
  fst (find_relevant_outputs (map script_pubkey (output tx)) s) = Done (Ok ro) ->
  outputs_in_range tx ro.
Proof.
  intros Hlen Ho; apply find_outputs_loop_ok in Ho as [_ ->]; simpl.
  rewrite relevant_outputs_of_index by exact Hlen.
  unfold outputs_in_range; apply List.Forall_forall; intros [v sc] Hin.
  apply in_map_iff in Hin as [[i o] [Heq Hin]]; injection Heq as <- _.
  apply filter_In in Hin as [Hin _]; apply in_combine_l, in_seq in Hin.
  rewrite Nat2N.id; lia.
Qed.

(** C1 (counterexample): Scenarios A, B and C in one run.  After
    [BlockDisconnected] at height 11 the UTXO [T1:0] spent at height 11
    is not restored, the record of [T2] stays, and the cursor stays 11
    instead of becoming 10. *)
Lemma C1_no_rollback :
  let r := process_events demo_txid
             [BlockMatched 7 0 10 [T1]; BlockMatched 8 0 11 [T2];
              BlockDisconnected 8 11; Synced 11 11] (cbf0 11 10) in
  fst r = Done (Ok tt) /\ mw_utxos (wallet (snd r)) = [] /\
  mw_txs (wallet (snd r)) = [T1; T2] /\
  last_sync_height (snd r) = 11 /\ last_sync_height (snd r) <> 11 - 1.
Proof. vm_compute; repeat split; discriminate. Qed.

(** C1 (amended): a [BlockDisconnected(height, hash)] event is only
    logged: the loop performs no rollback, leaves wallet, fee cache and
    cursor unchanged, and goes on with the next event. *)
Theorem C1_block_disconnected_logged {W} `{!WalletStore W} (txid : Transaction -> Txid)
    hash height rest (s : CbfBlockchain W) :
  process_events txid (BlockDisconnected hash height :: rest) s = process_events txid rest s.
Proof. reflexivity. Qed.

(** C2 (counterexample): [T1] pays the tracked script; the store accepts
    one write only.  [add_utxo] succeeds, [store_transaction] fails, and
    the error is returned with the new UTXO left in the store. *)
Lemma C2_partial_mutation :
  process_transaction demo_txid T1 (cbf0 10 1) =
    (Done (Err (WalletErr StorageFailure)),
     mkCbf ∅ [] 10 (mkMemWallet [script_S] [(mkOutPoint 1 0, 50000, script_S)] [] 0))
  /\ mw_utxos (wallet0 1) = [].
Proof. split; vm_compute; reflexivity. Qed.

(** C2 (amended): when reconciling a transaction fails, the store calls
    before the failing one have been made and their effect is kept: the
    error is the [k]-th expected call's, and the wallet left behind is the
    one produced by the first [k] calls.  Nothing else in the state
    changes. *)
Theorem C2_reconcile_stops_at_failure {W} `{!WalletStore W} (txid : Transaction -> Txid)
    tx ro ri (s s' : CbfBlockchain W) e
    (Hr : outputs_in_range tx ro)
    (Hfail : update_wallet_with_tx txid tx ro ri s = (Done (Err e), s')) :
  exists k c e', nth_error (expected_calls txid tx ro ri) k = Some c /\
    exec_calls (firstn k (expected_calls txid tx ro ri)) (wallet s) = (Ok tt, wallet s') /\
    run_call c (wallet s') = Err e' /\ e = WalletErr e' /\
    s' = set_wallet s (wallet s').
Proof.
  rewrite update_wallet_with_tx_calls in Hfail by exact Hr.
  unfold exec_calls_in in Hfail.
  destruct (exec_calls (expected_calls txid tx ro ri) (wallet s)) as [[u|e'] w'] eqn:E;
    simpl in Hfail; inversion Hfail; subst.
  apply exec_calls_err in E as (k & c & Hk & Hpre & Hc).
  exists k, c, e'; simpl; repeat split; auto.
Qed.

Lemma C2_reconcile_stops_at_failure_witness :
  exists k c e',
    nth_error (expected_calls demo_txid T1 [(0, script_S)] []) k = Some c /\
    exec_calls (firstn k (expected_calls demo_txid T1 [(0, script_S)] [])) (wallet (cbf0 10 1))
      = (Ok tt, mkMemWallet [script_S] [(mkOutPoint 1 0, 50000, script_S)] [] 0) /\
    run_call c (mkMemWallet [script_S] [(mkOutPoint 1 0, 50000, script_S)] [] 0) = Err e' /\
    WalletErr StorageFailure = WalletErr e' /\
    mkCbf ∅ [] 10 (mkMemWallet [script_S] [(mkOutPoint 1 0, 50000, script_S)] [] 0)
      = set_wallet (cbf0 10 1) (mkMemWallet [script_S] [(mkOutPoint 1 0, 50000, script_S)] [] 0).
Proof.
  apply (C2_reconcile_stops_at_failure demo_txid T1 [(0, script_S)] [] (cbf0 10 1)
           (mkCbf ∅ [] 10 (mkMemWallet [script_S] [(mkOutPoint 1 0, 50000, script_S)] [] 0))
           (WalletErr StorageFailure)); [constructor; [simpl; lia | constructor] |].
  vm_compute; reflexivity.
Defined.

(** C3: the matcher.  When it succeeds, every tracked-script and
    tracked-UTXO test it made answered; the relevant outputs are the
    outputs whose script is tracked, in transaction order, each paired
    with its index; the relevant inputs are the outpoints that are
    tracked UTXOs, in transaction order; a failing test makes the matcher
    fail.  The matcher does not change the state. *)
Theorem C3_relevance_matcher {W} `{!WalletStore W} (tx : Transaction) (s : CbfBlockchain W)
    (Hlen : N.of_nat (length (output tx)) < 2 ^ 32) :
  (forall ro,
     fst (find_relevant_outputs (map script_pubkey (output tx)) s) = Done (Ok ro) <->
     Forall (fun sc => exists b, is_script_tracked (wallet s) sc = Ok b)
       (map script_pubkey (output tx)) /\
     ro = map (fun '(i, o) => (N.of_nat i, script_pubkey o))
            (List.filter (fun '(_, o) => script_is_tracked (wallet s) (script_pubkey o))
               (combine (seq 0 (length (output tx))) (output tx)))) /\
  (forall ri,
     fst (find_relevant_inputs (map previous_output (input tx)) s) = Done (Ok ri) <->
     Forall (fun o => exists b, is_utxo_tracked (wallet s) o = Ok b)
       (map previous_output (input tx)) /\
     ri = List.filter (utxo_is_tracked (wallet s)) (map previous_output (input tx))) /\
  snd (find_relevant_outputs (map script_pubkey (output tx)) s) = s /\
  snd (find_relevant_inputs (map previous_output (input tx)) s) = s.
Proof.
  split; [|split; [|split]].
  - intros ro; unfold find_relevant_outputs; rewrite find_outputs_loop_ok; simpl.
    rewrite relevant_outputs_of_index by exact Hlen; reflexivity.
  - intros ri; unfold find_relevant_inputs; rewrite find_inputs_loop_ok; reflexivity.
  - apply find_outputs_loop_state.
  - apply find_inputs_loop_state.
Qed.

Lemma C3_relevance_matcher_witness :
  let tx := mkTransaction 5 [mkTxIn (mkOutPoint 1 0); mkTxIn (mkOutPoint 4 4)]
              [mkTxOut 10 script_X; mkTxOut 20 script_S; mkTxOut 30 script_S] 0 in
  let s := mkCbf ∅ [] 0 (mkMemWallet [script_S] [(mkOutPoint 1 0, 50000, script_S)] [] 9) in
  (forall ro,
     fst (find_relevant_outputs (map script_pubkey (output tx)) s) = Done (Ok ro) <->
     Forall (fun sc => exists b, is_script_tracked (wallet s) sc = Ok b)
       (map script_pubkey (output tx)) /\
     ro = map (fun '(i, o) => (N.of_nat i, script_pubkey o))
            (List.filter (fun '(_, o) => script_is_tracked (wallet s) (script_pubkey o))
               (combine (seq 0 (length (output tx))) (output tx)))) /\
  (forall ri,
     fst (find_relevant_inputs (map previous_output (input tx)) s) = Done (Ok ri) <->
     Forall (fun o => exists b, is_utxo_tracked (wallet s) o = Ok b)
       (map previous_output (input tx)) /\
     ri = List.filter (utxo_is_tracked (wallet s)) (map previous_output (input tx))) /\
  snd (find_relevant_outputs (map script_pubkey (output tx)) s) = s /\
  snd (find_relevant_inputs (map previous_output (input tx)) s) = s.
Proof.
  intros tx s; apply (C3_relevance_matcher tx s); vm_compute; reflexivity.
Defined.

(** C4 (counterexample): from cursor 5, [Synced(20, 20)] ends the loop
    with [Ok], but the cursor is still 5, not 20. *)
Lemma C4_cursor_not_set :
  process_events demo_txid [Synced 20 20] (cbf0 5 0) = (Done (Ok tt), cbf0 5 0) /\
  last_sync_height (cbf0 5 0) <> 20.
Proof. split; [reflexivity | discriminate]. Qed.

(** C4 (amended): on [Synced(height, tip)] the loop returns [Ok] with the
    state as it is when [height = tip], and goes on with the next event
    otherwise; the loop never writes the cursor, so it ends with the
    cursor it started with. *)
Theorem C4_synced_terminates {W} `{!WalletStore W} (txid : Transaction -> Txid)
    height tip rest (s : CbfBlockchain W) :
  process_events txid (Synced height tip :: rest) s =
    (if N.eqb height tip then (Done (Ok tt), s) else process_events txid rest s) /\
  (forall events, last_sync_height (snd (process_events txid events s)) = last_sync_height s).
Proof.
  split; [simpl; destruct (N.eqb height tip); reflexivity|].
  intros events; apply process_events_cursor.
Qed.

(** C5 (counterexample): from cursor 10, [BlockConnected] at height 12
    leaves the cursor at 10. *)
Lemma C5_cursor_not_advanced :
  let r := process_events demo_txid [BlockConnected 5 12; Synced 12 12] (cbf0 10 0) in
  fst r = Done (Ok tt) /\ 10 < 12 /\ last_sync_height (snd r) = 10.
Proof. vm_compute; repeat split; reflexivity. Qed.

(** C5 (amended): a [BlockConnected] event is only logged; the cursor is
    not advanced by it nor by any other event of the loop. *)
Theorem C5_block_connected_logged {W} `{!WalletStore W} (txid : Transaction -> Txid)
    hash height rest (s : CbfBlockchain W) :
  process_events txid (BlockConnected hash height :: rest) s = process_events txid rest s /\
  (forall events, last_sync_height (snd (process_events txid events s)) = last_sync_height s).
Proof.
  split; [reflexivity|].
  intros events; apply process_events_cursor.
Qed.

(** C6 (the event loop drops fee estimates): after [FeeEstimated] at
    height 20 the fee cache has no entry for 20, although [add_fee_data],
    never called by the loop, would record it. *)
Theorem C6_fee_estimate_dropped :
  fee_data (snd (process_events demo_txid [FeeEstimated 3 20 fee_ex; Synced 20 20]
                   (cbf0 20 0))) !! 20 = None /\
  fee_data (add_fee_data (cbf0 20 0) 20 fee_ex) !! 20 = Some fee_ex.
Proof. split; vm_compute; reflexivity. Qed.

(** C7: with no [BlockDisconnected] among the events, the cursor after
    the loop has consumed the first [i] events is at most the cursor after
    it has consumed the first [j >= i] of them. *)
Theorem C7_cursor_monotone {W} `{!WalletStore W} (txid : Transaction -> Txid)
    (events : list Event) (s : CbfBlockchain W) (i j : nat)
    (Hnd : forallb (fun e => negb (is_block_disconnected e)) events = true)
    (Hij : (i <= j)%nat) :
  last_sync_height (snd (process_events txid (firstn i events) s)) <=
  last_sync_height (snd (process_events txid (firstn j events) s)).
Proof. rewrite !process_events_cursor; lia. Qed.

Lemma C7_cursor_monotone_witness :
  last_sync_height (snd (process_events demo_txid
    (firstn 1 [BlockConnected 5 12; BlockMatched 7 0 12 [T1]; Synced 12 12]) (cbf0 10 10))) <=
  last_sync_height (snd (process_events demo_txid
    (firstn 3 [BlockConnected 5 12; BlockMatched 7 0 12 [T1]; Synced 12 12]) (cbf0 10 10))).
Proof.
  apply (C7_cursor_monotone demo_txid
           [BlockConnected 5 12; BlockMatched 7 0 12 [T1]; Synced 12 12] (cbf0 10 10) 1 3);
    [reflexivity | lia].
Defined.

Lemma connect_peers_ok connect peers :
  connect_peers connect peers = Ok tt <-> Forall (fun p => connect p = Ok tt) peers.
Proof.
  induction peers as [|p peers IH]; simpl.
  - split; auto.
  - destruct (connect p) as [[]|e] eqn:E.
    + rewrite IH; split; [intros; constructor; auto | intros H; inversion H; auto].
    + split; [discriminate | intros H; inversion H; congruence].
Qed.

Lemma connect_peers_first_failure connect peers1 p peers2 e :
  Forall (fun p => connect p = Ok tt) peers1 -> connect p = Err e ->
  connect_peers connect (peers1 ++ p :: peers2) = Err (NakamotoErr e).
Proof.
  intros H1 Hp; induction H1 as [|q peers1 Hq _ IH]; simpl.
  - rewrite Hp; reflexivity.
  - rewrite Hq; exact IH.
Qed.

(** C8 (counterexample): the engine client starts, the second of three
    peers refuses the connection, and [new] returns the error. *)
Lemma C8_peer_failure_fatal :
  new (Ok tt) (fun p => if N.eqb p 2 then Err (HandleError 111) else Ok tt) [1; 2; 3]
    (wallet0 0) = Err (NakamotoErr (HandleError 111)).
Proof. reflexivity. Qed.

(** C8 (amended): [new] fails if the engine client cannot be created, and
    also if connecting to any peer fails: peers are connected in order and
    the first failing connection aborts construction with its error.  It
    succeeds exactly when the client is created and every connection
    succeeds. *)
Theorem C8_new_requires_all_peers {W} (client_new : Result unit NakamotoError)
    (connect : SocketAddr -> Result unit NakamotoError) (peers : list SocketAddr) (w : W) :
  ((exists c, new client_new connect peers w = Ok c) <->
   client_new = Ok tt /\ Forall (fun p => connect p = Ok tt) peers) /\
  (forall e, client_new = Err e -> new client_new connect peers w = Err (NakamotoErr e)) /\
  (forall e peers1 p peers2,
     Forall (fun p => connect p = Ok tt) peers1 -> connect p = Err e ->
     new (Ok tt) connect (peers1 ++ p :: peers2) w = Err (NakamotoErr e)).
Proof.
  split; [|split].
  - unfold new; destruct client_new as [[]|e].
    + rewrite <- connect_peers_ok.
      destruct (connect_peers connect peers) as [[]|e].
      * split; [auto | eauto].
      * split; [intros [c Hc]; discriminate | intros [_ H]; discriminate].
    + split; [intros [c Hc]; discriminate | intros [H _]; discriminate].
  - intros e ->; reflexivity.
  - intros e peers1 p peers2 H1 Hp; unfold new.
    rewrite (connect_peers_first_failure connect peers1 p peers2 e H1 Hp); reflexivity.
Qed.

(** C9: when both relevance lists are empty, [process_transaction]
    returns [Ok] and the state is unchanged. *)
Theorem C9_no_relevant_noop {W} `{!WalletStore W} (txid : Transaction -> Txid)
    (tx : Transaction) (s : CbfBlockchain W)
    (Ho : fst (find_relevant_outputs (map script_pubkey (output tx)) s) = Done (Ok []))
    (Hi : fst (find_relevant_inputs (map previous_output (input tx)) s) = Done (Ok [])) :
  process_transaction txid tx s = (Done (Ok tt), s).
Proof.
  unfold process_transaction, bindM.
  pose proof (find_outputs_loop_state (map script_pubkey (output tx)) 0 [] s) as So.
  pose proof (find_inputs_loop_state (map previous_output (input tx)) [] s) as Si.
  unfold find_relevant_outputs, find_relevant_inputs in *.
  destruct (find_relevant_outputs_loop 0 [] _ s) as [o s1]; simpl in Ho, So; subst.
  destruct (find_relevant_inputs_loop [] _ s) as [o s2]; simpl in Hi, Si; subst.
  reflexivity.
Qed.

Lemma C9_no_relevant_noop_witness :
  process_transaction demo_txid T2 (cbf0 10 10) = (Done (Ok tt), cbf0 10 10).
Proof.
  apply (C9_no_relevant_noop demo_txid T2 (cbf0 10 10)); vm_compute; reflexivity.
Defined.

(** C10: whenever [process_transaction] applies a transaction (some
    relevant output or input), its whole effect is that of the store
    calls [expected_calls], in that order: [add_utxo] for each relevant
    output in index order with the amount of that output, [remove_utxo]
    for each relevant input, then one [store_transaction]. *)
Theorem C10_store_call_order {W} `{!WalletStore W} (txid : Transaction -> Txid)
    (tx : Transaction) (s : CbfBlockchain W) ro ri
    (Hlen : N.of_nat (length (output tx)) < 2 ^ 32)
    (Ho : fst (find_relevant_outputs (map script_pubkey (output tx)) s) = Done (Ok ro))
    (Hi : fst (find_relevant_inputs (map previous_output (input tx)) s) = Done (Ok ri))
    (Hne : ro <> [] \/ ri <> []) :
  process_transaction txid tx s = exec_calls_in (expected_calls txid tx ro ri) s.
Proof.
  pose proof (outputs_in_range_found tx s ro Hlen Ho) as Hr.
  unfold process_transaction, bindM.
  pose proof (find_outputs_loop_state (map script_pubkey (output tx)) 0 [] s) as So.
  pose proof (find_inputs_loop_state (map previous_output (input tx)) [] s) as Si.
  unfold find_relevant_outputs, find_relevant_inputs in *.
  destruct (find_relevant_outputs_loop 0 [] _ s) as [o s1]; simpl in Ho, So; subst.
  destruct (find_relevant_inputs_loop [] _ s) as [o s2]; simpl in Hi, Si; subst.
  replace (negb (bool_decide (ri = [])) || negb (bool_decide (ro = []))) with true.
  - apply update_wallet_with_tx_calls; exact Hr.
  - destruct Hne as [Hne|Hne];
      [rewrite (bool_decide_eq_false_2 (ro = [])) by exact Hne
      |rewrite (bool_decide_eq_false_2 (ri = [])) by exact Hne];
      simpl; rewrite ?orb_true_r; reflexivity.
Qed.

Lemma C10_store_call_order_witness :
  process_transaction demo_txid T2
    (mkCbf ∅ [] 10 (mkMemWallet [script_S] [(mkOutPoint 1 0, 50000, script_S)] [T1] 5))
  = exec_calls_in (expected_calls demo_txid T2 [] [mkOutPoint 1 0])
      (mkCbf ∅ [] 10 (mkMemWallet [script_S] [(mkOutPoint 1 0, 50000, script_S)] [T1] 5)).
Proof.
  apply (C10_store_call_order demo_txid T2
           (mkCbf ∅ [] 10 (mkMemWallet [script_S] [(mkOutPoint 1 0, 50000, script_S)] [T1] 5))
           [] [mkOutPoint 1 0]).
  - vm_compute; reflexivity.
  - vm_compute; reflexivity.
  - vm_compute; reflexivity.
  - right; discriminate.
Defined.

(* ------------------------------------------------------------------ *)
(** ** Further properties of [cbf.rs] *)

Section Further.

Context {W : Type} `{!WalletStore W} (txid : Transaction -> Txid).

Lemma find_outputs_loop_no_panic scripts idx acc (s : CbfBlockchain W) :
  is_panic (fst (find_relevant_outputs_loop idx acc scripts s)) = false.
Proof.
  revert idx acc; induction scripts as [|sc scripts IH]; intros idx acc; simpl; auto.
  unfold bindM, wallet_read; destruct (is_script_tracked _ _); simpl; auto.
Qed.

Lemma find_inputs_loop_no_panic outpoints acc (s : CbfBlockchain W) :
  is_panic (fst (find_relevant_inputs_loop acc outpoints s)) = false.
Proof.
  revert acc; induction outpoints as [|o outpoints IH]; intros acc; simpl; auto.
  unfold bindM, wallet_read; destruct (is_utxo_tracked _ _); simpl; auto.
Qed.

(** [idx as u32] never exceeds [idx], so every index the matcher returns
    names an output, whatever the number of outputs. *)
Lemma outputs_in_range_any (tx : Transaction) (s : CbfBlockchain W) ro :
  fst (find_relevant_outputs (map script_pubkey (output tx)) s) = Done (Ok ro) ->
  outputs_in_range tx ro.
Proof.
  intros Ho; apply find_outputs_loop_ok in Ho as [_ ->]; simpl.
  unfold outputs_in_range, relevant_outputs_of; rewrite length_map.
  apply List.Forall_forall; intros [v sc] Hin.
  apply in_map_iff in Hin as [[i o] [Heq Hin]]; injection Heq as <- _.
  apply filter_In in Hin as [Hin _]; apply in_combine_l, in_seq in Hin.
  assert (as_u32 i <= N.of_nat i) by (unfold as_u32; apply N.Div0.mod_le).
  lia.
Qed.

Lemma process_transaction_no_panic_aux tx (s : CbfBlockchain W) :
  is_panic (fst (process_transaction txid tx s)) = false.
Proof.
  unfold process_transaction, bindM at 1.
  pose proof (find_outputs_loop_state (map script_pubkey (output tx)) 0 [] s) as So.
  pose proof (find_outputs_loop_no_panic (map script_pubkey (output tx)) 0 [] s) as Po.
  pose proof (outputs_in_range_any tx s) as Hr.
  unfold find_relevant_outputs in *.
  destruct (find_relevant_outputs_loop 0 [] _ s) as [o s1]; simpl in So, Po, Hr; subst s1.
  destruct o as [[ro|e]|]; simpl; auto.
  specialize (Hr ro eq_refl).
  unfold bindM.
  pose proof (find_inputs_loop_state (map previous_output (input tx)) [] s) as Si.
  pose proof (find_inputs_loop_no_panic (map previous_output (input tx)) [] s) as Pi.
  unfold find_relevant_inputs in *.
  destruct (find_relevant_inputs_loop [] _ s) as [o s2]; simpl in Si, Pi; subst s2.
  destruct o as [[ri|e]|]; simpl; auto.
  destruct (_ || _); [|reflexivity].
  rewrite update_wallet_with_tx_calls by exact Hr; reflexivity.
Qed.

Lemma process_transactions_no_panic txs (s : CbfBlockchain W) :
  is_panic (fst (process_transactions txid txs s)) = false.
Proof.
  revert s; induction txs as [|tx txs IH]; intros s; simpl; auto.
  unfold bindM.
  pose proof (process_transaction_no_panic_aux tx s) as P.
  destruct (process_transaction txid tx s) as [[[u|e]|] s1]; simpl in *; auto.
Qed.

Lemma process_events_no_panic_aux events (s : CbfBlockchain W) :
  is_panic (fst (process_events txid events s)) = false.
Proof.
  revert s; induction events as [|e events IH]; intros s; simpl; auto.
  destruct e; auto.
  - unfold bindM.
    pose proof (process_transactions_no_panic transactions s) as P.
    destruct (process_transactions txid transactions s) as [[[u|e]|] s1]; simpl in *; auto.
  - destruct (N.eqb _ _); auto.
Qed.

End Further.

(** Extra: [add_fee_data] records the estimate at its height, replaces an
    earlier estimate for that height, keeps the other heights, and
    changes nothing else. *)
Theorem add_fee_data_insert_lookup {W} (s : CbfBlockchain W) (height : N)
    (fe fe' : FeeEstimate) :
  fee_data (add_fee_data s height fe) !! height = Some fe /\
  (forall other, other <> height ->
     fee_data (add_fee_data s height fe) !! other = fee_data s !! other) /\
  add_fee_data (add_fee_data s height fe') height fe = add_fee_data s height fe /\
  last_sync_height (add_fee_data s height fe) = last_sync_height s /\
  broadcasted_txs (add_fee_data s height fe) = broadcasted_txs s /\
  wallet (add_fee_data s height fe) = wallet s.
Proof.
  split; [apply lookup_insert_eq|].
  split; [intros other Hne; apply lookup_insert_ne; congruence|].
  split; [unfold add_fee_data; simpl; rewrite insert_insert_eq; reflexivity|].
  auto.
Qed.

(** Extra: after [initialize_cbf_sync] obtains the tip height, any run of
    the event loop ends with the cursor at that height, with the other
    fields as before initialisation; a failing tip query leaves the whole
    state unchanged and returns the error. *)
Theorem initialize_then_process_events_cursor {W} `{!WalletStore W}
    (txid : Transaction -> Txid) (s : CbfBlockchain W) :
  (forall height header events,
     last_sync_height (snd (process_events txid events
       (snd (initialize_cbf_sync (Ok (Ok (height, header))) s)))) = height /\
     fee_data (snd (initialize_cbf_sync (Ok (Ok (height, header))) s)) = fee_data s /\
     wallet (snd (initialize_cbf_sync (Ok (Ok (height, header))) s)) = wallet s /\
     broadcasted_txs (snd (initialize_cbf_sync (Ok (Ok (height, header))) s)) = broadcasted_txs s) /\
  (forall e, initialize_cbf_sync (Err e) s = (Done (Err (NakamotoErr e)), s) /\
             initialize_cbf_sync (Ok (Err e)) s = (Done (Err (NakamotoErr e)), s)).
Proof.
  split; [|split; reflexivity].
  intros height header events; repeat split.
  rewrite process_events_cursor; reflexivity.
Qed.

(** Extra: [process_transaction] never panics: the index it reads an
    output amount at always names an output, for any transaction and any
    wallet store. *)
Theorem process_transaction_no_panic {W} `{!WalletStore W} (txid : Transaction -> Txid)
    (tx : Transaction) (s : CbfBlockchain W) :
  is_panic (fst (process_transaction txid tx s)) = false.
Proof. apply process_transaction_no_panic_aux. Qed.

(** Extra: the event loop never panics, whatever the events. *)
Theorem process_events_no_panic {W} `{!WalletStore W} (txid : Transaction -> Txid)
    (events : list Event) (s : CbfBlockchain W) :
  is_panic (fst (process_events txid events s)) = false.
Proof. apply process_events_no_panic_aux. Qed.

Lemma process_events_ok_inv {W} `{!WalletStore W} (txid : Transaction -> Txid)
    events (s s' : CbfBlockchain W) :
  process_events txid events s = (Done (Ok tt), s') ->
  exists pre height rest, events = pre ++ Synced height height :: rest /\
    forallb (fun e => negb (is_final_synced e)) pre = true.
Proof.
  revert s; induction events as [|e events IH]; intros s H; simpl in H; [discriminate|].
  destruct e as [| | | | | | | |hash header height txs| | | |height tip];
    try (destruct (IH s H) as (pre & h & rest & -> & Hpre);
         eexists (_ :: pre), h, rest; split; [reflexivity | exact Hpre]).
  - unfold bindM in H.
    destruct (process_transactions txid txs s) as [[[u|e]|] s1]; try discriminate.
    destruct (IH s1 H) as (pre & h & rest & -> & Hpre).
    exists (BlockMatched hash header height txs :: pre), h, rest; auto.
  - destruct (N.eqb height tip) eqn:E.
    + apply N.eqb_eq in E; subst tip.
      exists [], height, events; auto.
    + destruct (IH s H) as (pre & h & rest & -> & Hpre).
      exists (Synced height tip :: pre), h, rest; simpl; rewrite E; auto.
Qed.

(** Extra: the event loop returns [Ok] only after consuming a
    [Synced(height, tip)] with [height = tip], and it is the first such
    event of the stream. *)
Theorem process_events_ok_needs_final_synced {W} `{!WalletStore W}
    (txid : Transaction -> Txid) events (s s' : CbfBlockchain W)
    (Hok : process_events txid events s = (Done (Ok tt), s')) :
  exists pre height rest, events = pre ++ Synced height height :: rest /\
    forallb (fun e => negb (is_final_synced e)) pre = true.
Proof. exact (process_events_ok_inv txid events s s' Hok). Qed.

Lemma process_events_ok_needs_final_synced_witness :
  exists pre height rest,
    [Ready 1 1; Synced 3 9; BlockMatched 7 0 10 [T1]; Synced 10 10; Ready 2 2]
      = pre ++ Synced height height :: rest /\
    forallb (fun e => negb (is_final_synced e)) pre = true.
Proof.
  apply (process_events_ok_needs_final_synced demo_txid
           [Ready 1 1; Synced 3 9; BlockMatched 7 0 10 [T1]; Synced 10 10; Ready 2 2]
           (cbf0 10 10)
           (mkCbf ∅ [] 10 (mkMemWallet [script_S] [(mkOutPoint 1 0, 50000, script_S)] [T1] 8))).
  vm_compute; reflexivity.
Defined.

(** Extra: events after the first final [Synced] are never consumed:
    whatever follows it, the run is the same. *)
Theorem process_events_ignores_after_final_synced {W} `{!WalletStore W}
    (txid : Transaction -> Txid) pre height rest rest' (s : CbfBlockchain W)
    (Hpre : forallb (fun e => negb (is_final_synced e)) pre = true) :
  process_events txid (pre ++ Synced height height :: rest) s =
  process_events txid (pre ++ Synced height height :: rest') s.
Proof.
  revert s; induction pre as [|e pre IH]; intros s; simpl in *.
  - rewrite N.eqb_refl; reflexivity.
  - apply andb_prop in Hpre as [He Hpre].
    destruct e; simpl in He; try (apply IH; exact Hpre).
    + apply bindM_ext; [reflexivity|]; intros _ s1; apply IH; exact Hpre.
    + destruct (N.eqb height0 tip); [discriminate | apply IH; exact Hpre].
Qed.

Lemma process_events_ignores_after_final_synced_witness :
  process_events demo_txid ([BlockMatched 7 0 10 [T1]] ++ Synced 10 10 :: [])
    (cbf0 10 10) =
  process_events demo_txid ([BlockMatched 7 0 10 [T1]] ++ Synced 10 10 ::
    [BlockMatched 8 0 11 [T2]; Synced 11 11]) (cbf0 10 10).
Proof.
  apply (process_events_ignores_after_final_synced demo_txid [BlockMatched 7 0 10 [T1]]
           10 [] [BlockMatched 8 0 11 [T2]; Synced 11 11] (cbf0 10 10)).
  reflexivity.
Defined.

(** Extra: only block matches and the final [Synced] matter to the event
    loop: dropping every other event gives the same run. *)
Theorem process_events_skips_logged_events {W} `{!WalletStore W}
    (txid : Transaction -> Txid) events (s : CbfBlockchain W) :
  process_events txid events s = process_events txid (List.filter is_acted_on events) s.
Proof.
  revert s; induction events as [|e events IH]; intros s; [reflexivity|].
  destruct e; simpl; auto.
  - apply bindM_ext; [reflexivity|]; intros _ s1; apply IH.
  - destruct (N.eqb height tip) eqn:E; simpl; rewrite ?E; auto.
Qed.

(** Extra: a stream with no block match leaves the whole state unchanged;
    the loop returns [Ok] if it holds a final [Synced] and otherwise ends
    with the channel-closed error. *)
Theorem process_events_without_matches {W} `{!WalletStore W}
    (txid : Transaction -> Txid) events (s : CbfBlockchain W)
    (Hnm : forallb (fun e => match e with BlockMatched _ _ _ _ => false | _ => true end)
             events = true) :
  process_events txid events s =
    (if existsb is_final_synced events then Done (Ok tt)
     else Done (Err (NakamotoErr ChannelClosed)), s).
Proof.
  induction events as [|e events IH]; [reflexivity|].
  simpl in Hnm; apply andb_prop in Hnm as [He Hnm].
  destruct e; simpl; try discriminate; auto.
  destruct (N.eqb height tip); simpl; auto.
Qed.

Lemma process_events_without_matches_witness :
  process_events demo_txid [Ready 1 1; BlockConnected 5 12; Synced 11 12] (cbf0 10 10) =
    (Done (Err (NakamotoErr ChannelClosed)), cbf0 10 10).
Proof.
  apply (process_events_without_matches demo_txid
           [Ready 1 1; BlockConnected 5 12; Synced 11 12] (cbf0 10 10)).
  reflexivity.
Defined.

(** Extra: the event loop never changes the fee cache, the broadcast log
    or the cursor: only the wallet. *)
Theorem process_events_changes_only_wallet {W} `{!WalletStore W}
    (txid : Transaction -> Txid) events (s : CbfBlockchain W) :
  fee_data (snd (process_events txid events s)) = fee_data s /\
  broadcasted_txs (snd (process_events txid events s)) = broadcasted_txs s /\
  last_sync_height (snd (process_events txid events s)) = last_sync_height s.
Proof.
  destruct (wallet_only_process_events txid events s) as [w ->].
  destruct s; repeat split.
Qed.

(** Extra: a failing tracked-script or tracked-UTXO test makes
    [process_transaction] return that error before any store write. *)
Theorem process_transaction_read_error {W} `{!WalletStore W} (txid : Transaction -> Txid)
    (tx : Transaction) (s : CbfBlockchain W) e
    (Hfail : fst (find_relevant_outputs (map script_pubkey (output tx)) s) = Done (Err e) \/
             exists ro, fst (find_relevant_outputs (map script_pubkey (output tx)) s) = Done (Ok ro) /\
                        fst (find_relevant_inputs (map previous_output (input tx)) s) = Done (Err e)) :
  process_transaction txid tx s = (Done (Err e), s).
Proof.
  unfold process_transaction, bindM.
  pose proof (find_outputs_loop_state (map script_pubkey (output tx)) 0 [] s) as So.
  pose proof (find_inputs_loop_state (map previous_output (input tx)) [] s) as Si.
  unfold find_relevant_outputs, find_relevant_inputs in *.
  destruct (find_relevant_outputs_loop 0 [] _ s) as [o s1]; simpl in So, Hfail; subst s1.
  destruct (find_relevant_inputs_loop [] _ s) as [o2 s2]; simpl in Si, Hfail; subst s2.
  destruct Hfail as [-> | (ro & -> & ->)]; reflexivity.
Qed.

Lemma process_transaction_read_error_witness :
  process_transaction demo_txid T1 (mkCbf ∅ [] 0 offline) =
    (Done (Err (WalletErr StorageFailure)), mkCbf ∅ [] 0 offline).
Proof.
  apply (process_transaction_read_error demo_txid T1 (mkCbf ∅ [] 0 offline)).
  left; reflexivity.
Defined.

(** Extra: the transactions of a block are applied one after another; if
    one fails, the later ones are not applied and the effects of the
    earlier ones stay. *)
Theorem process_transactions_app {W} `{!WalletStore W} (txid : Transaction -> Txid)
    txs1 txs2 (s : CbfBlockchain W) :
  process_transactions txid (txs1 ++ txs2) s =
  match process_transactions txid txs1 s with
  | (Done (Ok _), s1) => process_transactions txid txs2 s1
  | r => r
  end.
Proof.
  revert s; induction txs1 as [|tx txs1 IH]; intros s; simpl; [reflexivity|].
  unfold bindM.
  destruct (process_transaction txid tx s) as [[[u|e]|] s1]; [|reflexivity|reflexivity].
  apply IH.
Qed.
